(** * The dockerd integration worker of buildkit's test harness

    A shallow embedding of [util/testutil/integration/dockerd.go]:
    the bootstrap sequence [moby.New] with its tracker of release actions,
    the readiness poller [waitForAPI], and the relay that forwards local
    connections to the daemon over hijacked streams. *)

From Stdlib Require Import List ZArith String Bool Lia Arith.
Import ListNotations.

Local Open Scope Z_scope.

(** ** Errors *)

(** Go [error] values.  [Wrapf] and [Errorf] are the two decorations the
    source applies ([errors.Wrapf] and [errors.Errorf] with the cause
    quoted by [%q]); [nil] is [None] at type [option error]. *)
Inductive error : Type :=
| ErrNew (msg : string)
| Wrapf (cause : error) (msg : string)
| Errorf (msg : string) (cause : error).

(** The error a decorated error was built from. *)
Fixpoint rootCause (e : error) : error :=
  match e with
  | ErrNew _ => e
  | Wrapf c _ => rootCause c
  | Errorf _ c => rootCause c
  end.

(** ** Durations: [time.Duration] is an [int64] count of nanoseconds *)

Module Duration.

Definition min_int64 : Z := - 2 ^ 63.
Definition max_int64 : Z := 2 ^ 63 - 1.

Definition in_range (z : Z) : Prop := min_int64 <= z <= max_int64.

(** Two's complement wrap-around of 64-bit signed arithmetic. *)
Definition wrap (z : Z) : Z := (z + 2 ^ 63) mod 2 ^ 64 - 2 ^ 63.

Definition add (a b : Z) : Z := wrap (a + b).
Definition mul (a b : Z) : Z := wrap (a * b).

Definition Millisecond : Z := 1000000.
Definition Second : Z := 1000 * Millisecond.

End Duration.

(** ** The readiness poller *)

(** What one run of [waitForAPI] did: the error it returned, how many times
    it called [Ping] and how many times it slept for one [step]. *)
Record pollResult : Type := mkPoll {
  poll_err : option error;
  poll_calls : nat;
  poll_sleeps : nat
}.

Definition step : Z := 50 * Duration.Millisecond.

Definition errPing : error := ErrNew "failed to connect to /_ping endpoint".

(** The loop of [waitForAPI].  [ping k] is what the [k]-th call of
    [apiClient.Ping] returns (calls are numbered from 1); [i] is the
    source's counter, [calls] and [sleeps] count the effects so far. The
    fuel bounds the number of iterations: [None] means the loop was still
    running when it ran out. *)
Fixpoint waitForAPI_loop (fuel : nat) (ping : nat -> option error) (d : Z)
    (i : Z) (calls sleeps : nat) : option pollResult :=
  match fuel with
  | O => None
  | S fuel' =>
      match ping (S calls) with
      | None => Some (mkPoll None (S calls) sleeps)
      | Some _ =>
          let i' := Duration.add i 1 in
          if Duration.mul i' step >? d
          then Some (mkPoll (Some errPing) (S calls) sleeps)
          else waitForAPI_loop fuel' ping d i' (S calls) (S sleeps)
      end
  end.

Definition waitForAPI (fuel : nat) (ping : nat -> option error) (d : Z)
    : option pollResult :=
  waitForAPI_loop fuel ping d 0 O O.

(** The number of attempts the poller allows for a deadline [d]. *)
Definition maxAttempts (d : Z) : nat := Z.to_nat (Z.max 1 (d / step + 1)).

(** The deadlines for which the counter times the interval stays within
    [int64] up to the last attempt. *)
Definition noOverflow (d : Z) : Prop :=
  Duration.in_range d /\
  Z.of_nat (maxAttempts d) * step <= Duration.max_int64.

(** [ping] fails on each of the calls [1..n]. *)
Definition failsUpTo (ping : nat -> option error) (n : nat) : Prop :=
  forall k, (1 <= k <= n)%nat -> ping k <> None.

(** ** The tracker of release actions *)

(** Modelled from the spec: the type [multiCloser] with its methods [append]
    and [F] is declared in another file of the package; only its uses are in
    [dockerd.go].  Following section 4.1: [append] adds a release action at
    the end of an ordered list; the function returned by [F] calls every
    registered action in reverse order of registration, goes on after an
    action that fails, returns the first error it met, and leaves the list
    empty so that a later call finds nothing to do. *)
Record multiCloser (Fn : Type) : Type := mkCloser { fns : list Fn }.
Arguments mkCloser {Fn} _.
Arguments fns {Fn} _.

Definition mc_append {Fn : Type} (mc : multiCloser Fn) (f : Fn)
    : multiCloser Fn :=
  mkCloser (fns mc ++ [f]).

(** Calls the actions of [l] from left to right, threading the world [W]
    they act on; [err] is the first error seen so far. *)
Fixpoint callEach {Fn W : Type} (call : Fn -> W -> W * option error)
    (l : list Fn) (w : W) (err : option error) : W * option error :=
  match l with
  | [] => (w, err)
  | f :: l' =>
      let '(w', err1) := call f w in
      callEach call l' w' (match err with None => err1 | Some _ => err end)
  end.

Definition mc_F {Fn W : Type} (call : Fn -> W -> W * option error)
    (mc : multiCloser Fn) (w : W) : multiCloser Fn * W * option error :=
  let '(w', err) := callEach call (rev (fns mc)) w None in
  (mkCloser [], w', err).

(** ** The worker and the backend it returns *)

Record moby : Type := mkMoby {
  name : string;
  rootless : bool;
  unsupported : list string
}.

(** The struct [backend] is declared elsewhere in the package; these are
    the four fields [New] fills in. *)
Module backend.
Record t : Type := mk {
  address : string;
  rootless : bool;
  isDockerd : bool;
  unsupportedFeatures : list string
}.
End backend.

(** The part of buildkit's configuration [New] reads, and the daemon
    configuration it derives from it. *)
Record bkConfig : Type := mkBkConfig {
  dockerIoMirrors : option (list string);
  Entitlements : list string
}.

Record dockerdConfig : Type := mkDockerdConfig {
  containerdSnapshotter : bool;
  Mirrors : list string;
  NetworkHost : bool;
  SecurityInsecure : bool
}.

Definition translateConfig (c : moby) (bkcfg : bkConfig) : dockerdConfig :=
  mkDockerdConfig
    (String.eqb (name c) "dockerd-containerd")
    (match dockerIoMirrors bkcfg with
     | Some ms => map (fun m => ("http://" ++ m)%string) ms
     | None => []
     end)
    (existsb (String.eqb "network.host") (Entitlements bkcfg))
    (existsb (String.eqb "security.insecure") (Entitlements bkcfg)).

(** ** Release actions, events and the state of one bootstrap *)

(** The four functions [New] registers with the tracker. *)
Inductive closer : Type :=
| ProxyGroupWait     (* proxyGroup.Wait *)
| DaemonStop         (* d.StopWithError *)
| ClientClose        (* dockerAPI.Close *)
| ListenerClose.     (* listener.Close *)

Definition closer_eqb (a b : closer) : bool :=
  match a, b with
  | ProxyGroupWait, ProxyGroupWait
  | DaemonStop, DaemonStop
  | ClientClose, ClientClose
  | ListenerClose, ListenerClose => true
  | _, _ => false
  end.

(** What a run does to the world, in order.  An acquisition is recorded
    when it succeeded. *)
Inductive event : Type :=
| EvAppend (c : closer)                   (* deferF.append *)
| EvMkdirTemp (workDir : string)
| EvNewDaemon
| EvWriteFile (path : string)
| EvStart (flags : list string)
| EvWaitUnix
| EvNewClient
| EvWaitForAPI (calls sleeps : nat)
| EvCreateTemp (localPath : string)
| EvFileClose (localPath : string)
| EvRemove (localPath : string)
| EvListen (localPath : string)
| EvGoAcceptLoop                          (* proxyGroup.Go *)
| EvReleaseAll                            (* the function from deferF.F() is called *)
| EvCall (c : closer).                    (* one release action is called *)

(** Everything the collaborators answer during one run. *)
Record Env : Type := mkEnv {
  env_requireRoot : option error;
  env_loadFile : bkConfig + error;
  env_marshal : dockerdConfig -> string + error;
  env_logs : string;                                  (* formatLogs(cfg.Logs) *)
  env_mkdirTemp : string + error;
  env_newDaemon : option error;
  env_writeFile : option error;
  env_extraFlags : string;      (* BUILDKIT_INTEGRATION_DOCKERD_FLAGS *)
  env_splitFlags : string -> list string; (* Split(TrimSpace(s), newline) *)
  env_start : option error;
  env_waitUnix : option error;
  env_newClient : option error;
  env_ping : nat -> option error;
  env_createTemp : string + error;
  env_listen : string + error;       (* the listener's Addr().String() *)
  env_close : closer -> option error (* what each release action returns *)
}.

(** The tracker [deferF] allocated by [New] and the events so far. *)
Record State : Type := mkState {
  deferF : multiCloser closer;
  trace : list event
}.

Definition initState : State := mkState (mkCloser []) [].

(** The teardown handle is the closure [deferF.F()]: it has no state of
    its own, it works on the tracker it was made from. *)
Inductive handle : Type := deferF_F.

(** The three named results of [New]. *)
Record results : Type := mkResults {
  b : option backend.t;
  cl : option handle;
  err : option error
}.

(** Calling one registered action. *)
Definition invoke (env : Env) (c : closer) (tr : list event)
    : list event * option error :=
  (tr ++ [EvCall c], env_close env c).

(** Calling the function [deferF.F()]. *)
Definition callHandle (env : Env) (h : handle) (s : State)
    : State * option error :=
  let '(mc, tr, e) :=
    mc_F (invoke env) (deferF s) (trace s ++ [EvReleaseAll]) in
  (mkState mc tr, e).

(** ** A monad for the body of [New]

    State passing with early return: a computation either goes on with a
    value or leaves [New] with the three results set; [None] stands for a
    loop that ran out of fuel. *)
Definition M (A : Type) : Type := State -> option ((A + results) * State).

Definition ret {A : Type} (a : A) : M A := fun s => Some (inl a, s).

Definition returnWith {A : Type} (r : results) : M A :=
  fun s => Some (inr r, s).

Definition bind {A B : Type} (m : M A) (k : A -> M B) : M B :=
  fun s =>
    match m s with
    | Some (inl a, s') => k a s'
    | Some (inr r, s') => Some (inr r, s')
    | None => None
    end.

Notation "x <- m ;; k" := (bind m (fun x => k))
  (at level 61, m at next level, right associativity).
Notation "m ;;; k" := (bind m (fun _ => k))
  (at level 61, right associativity).

Definition emit (ev : event) : M unit :=
  fun s => Some (inl tt, mkState (deferF s) (trace s ++ [ev])).

(** [deferF.append(c)] *)
Definition append (c : closer) : M unit :=
  fun s => Some (inl tt,
                 mkState (mc_append (deferF s) c) (trace s ++ [EvAppend c])).

(** [return nil, nil, e] *)
Definition returnErr {A : Type} (e : error) : M A :=
  returnWith (mkResults None None (Some e)).

(** A step that yields an error or nothing. *)
Definition try (r : option error) (decorate : error -> error) : M unit :=
  match r with
  | None => ret tt
  | Some e => returnErr (decorate e)
  end.

(** A step that yields a value or an error. *)
Definition tryGet {A : Type} (r : A + error) (decorate : error -> error)
    : M A :=
  match r with
  | inl a => ret a
  | inr e => returnErr (decorate e)
  end.

Definition diverge {A : Type} : M A := fun _ => None.
(** ** [moby.New] *)

(** Iterations granted to the poller inside [New]: the deadline there is
    five seconds, which allows 101 attempts. *)
Definition pollFuel : nat := 101.

(** Lines 105 to 214: from the creation of the tracker to the final
    [return].  The named result [cl] holds [deferF.F()] from line 106 on. *)
Definition New_body (env : Env) (c : moby) (dcfgdt : string) : M results :=
  append ProxyGroupWait ;;;
  workDir <- tryGet (env_mkdirTemp env) (fun e => e) ;;
  emit (EvMkdirTemp workDir) ;;;
  try (env_newDaemon env)
      (Errorf ("new daemon error: %q, " ++ env_logs env)) ;;;
  emit EvNewDaemon ;;;
  let dockerdConfigFile := (workDir ++ "/daemon.json")%string in
  try (env_writeFile env) (fun e => e) ;;;
  emit (EvWriteFile dockerdConfigFile) ;;;
  let dockerdFlags :=
    ["--config-file"; dockerdConfigFile; "--userland-proxy=false"; "--debug"]%string
    ++ (if String.eqb (env_extraFlags env) "" then []
        else env_splitFlags env (env_extraFlags env)) in
  try (env_start env) (fun e => e) ;;;
  emit (EvStart dockerdFlags) ;;;
  append DaemonStop ;;;
  try (env_waitUnix env)
      (Errorf ("dockerd did not start up: %q, " ++ env_logs env)) ;;;
  emit EvWaitUnix ;;;
  try (env_newClient env) (fun e => e) ;;;
  emit EvNewClient ;;;
  append ClientClose ;;;
  match waitForAPI pollFuel (env_ping env) (5 * Duration.Second) with
  | None => diverge
  | Some p =>
      emit (EvWaitForAPI (poll_calls p) (poll_sleeps p)) ;;;
      try (poll_err p)
          (fun e => Wrapf e ("dockerd client api timed out: " ++ env_logs env)) ;;;
      match env_createTemp env with
      | inr e =>
          (* the bare [return] of line 168: [b] and [cl] keep their values *)
          returnWith (mkResults None (Some deferF_F) (Some e))
      | inl localPath =>
          emit (EvCreateTemp localPath) ;;;
          emit (EvFileClose localPath) ;;;
          emit (EvRemove localPath) ;;;
          addr <- tryGet (env_listen env)
                    (fun e => Wrapf e ("dockerd listener error: " ++ env_logs env)) ;;
          emit (EvListen localPath) ;;;
          append ListenerClose ;;;
          emit EvGoAcceptLoop ;;;
          ret (mkResults
                 (Some (backend.mk ("unix://" ++ addr) (rootless c) true
                                   (unsupported c)))
                 (Some deferF_F)
                 None)
      end
  end.

(** The deferred function of lines 108 to 113. *)
Definition deferred (env : Env) (r : results) (s : State) : results * State :=
  match err r with
  | Some _ =>
      let '(s', _) := callHandle env deferF_F s in
      (mkResults (b r) None (err r), s')
  | None => (r, s)
  end.

Definition New (env : Env) (c : moby) : option (results * State) :=
  match env_requireRoot env with
  | Some e => Some (mkResults None None (Some e), initState)
  | None =>
      match env_loadFile env with
      | inr e =>
          Some (mkResults None None
                  (Some (Wrapf e "failed to load buildkit config file")),
                initState)
      | inl bkcfg =>
          match env_marshal env (translateConfig c bkcfg) with
          | inr e =>
              Some (mkResults None None
                      (Some (Wrapf e "failed to marshal dockerd config")),
                    initState)
          | inl dcfgdt =>
              match New_body env c dcfgdt initState with
              | None => None
              | Some (inl r, s) => Some (deferred env r s)
              | Some (inr r, s) => Some (deferred env r s)
              end
          end
      end
  end.

(** ** Reading a trace *)

(** The release actions registered, in order of registration. *)
Fixpoint registered (tr : list event) : list closer :=
  match tr with
  | [] => []
  | EvAppend c :: tr' => c :: registered tr'
  | _ :: tr' => registered tr'
  end.

(** The release actions called, in order of call. *)
Fixpoint released (tr : list event) : list closer :=
  match tr with
  | [] => []
  | EvCall c :: tr' => c :: released tr'
  | _ :: tr' => released tr'
  end.

(** How many times the aggregate release function was called. *)
Fixpoint releaseAllCalls (tr : list event) : nat :=
  match tr with
  | [] => O
  | EvReleaseAll :: tr' => S (releaseAllCalls tr')
  | _ :: tr' => releaseAllCalls tr'
  end.

(** The teardown handle called [n] times in a row; the errors returned,
    first call first. *)
Fixpoint callTimes (env : Env) (h : handle) (n : nat) (s : State)
    : State * list (option error) :=
  match n with
  | O => (s, [])
  | S n' =>
      let '(s1, e) := callHandle env h s in
      let '(s2, es) := callTimes env h n' s1 in
      (s2, e :: es)
  end.

(** ** The steps of the bootstrap, as the claims speak of them *)

Inductive bootStep : Type :=
| StepRequireRoot | StepLoadFile | StepMarshal
| StepMkdirTemp | StepNewDaemon | StepWriteFile | StepStart
| StepWaitUnix | StepNewClient | StepWaitForAPI | StepCreateTemp
| StepListen.

Definition bootSteps : list bootStep :=
  [StepRequireRoot; StepLoadFile; StepMarshal; StepMkdirTemp; StepNewDaemon;
   StepWriteFile; StepStart; StepWaitUnix; StepNewClient; StepWaitForAPI;
   StepCreateTemp; StepListen].

Definition errOf {A : Type} (r : A + error) : option error :=
  match r with inl _ => None | inr e => Some e end.

(** The error a step meets in the environment [env], if it is reached. *)
Definition stepError (env : Env) (c : moby) (st : bootStep) : option error :=
  match st with
  | StepRequireRoot => env_requireRoot env
  | StepLoadFile => errOf (env_loadFile env)
  | StepMarshal =>
      match env_loadFile env with
      | inl bkcfg => errOf (env_marshal env (translateConfig c bkcfg))
      | inr _ => None
      end
  | StepMkdirTemp => errOf (env_mkdirTemp env)
  | StepNewDaemon => env_newDaemon env
  | StepWriteFile => env_writeFile env
  | StepStart => env_start env
  | StepWaitUnix => env_waitUnix env
  | StepNewClient => env_newClient env
  | StepWaitForAPI =>
      match waitForAPI pollFuel (env_ping env) (5 * Duration.Second) with
      | Some p => poll_err p
      | None => None
      end
  | StepCreateTemp => errOf (env_createTemp env)
  | StepListen => errOf (env_listen env)
  end.

(** The first step of the sequence that fails, with its error. *)
Fixpoint firstFailureIn (env : Env) (c : moby) (l : list bootStep)
    : option (bootStep * error) :=
  match l with
  | [] => None
  | st :: l' =>
      match stepError env c st with
      | Some e => Some (st, e)
      | None => firstFailureIn env c l'
      end
  end.

Definition firstFailure (env : Env) (c : moby) : option (bootStep * error) :=
  firstFailureIn env c bootSteps.

(** The context [New] adds to the error of a step before returning it. *)
Definition decorate (env : Env) (st : bootStep) (e : error) : error :=
  match st with
  | StepLoadFile => Wrapf e "failed to load buildkit config file"
  | StepMarshal => Wrapf e "failed to marshal dockerd config"
  | StepNewDaemon => Errorf ("new daemon error: %q, " ++ env_logs env) e
  | StepWaitUnix => Errorf ("dockerd did not start up: %q, " ++ env_logs env) e
  | StepWaitForAPI => Wrapf e ("dockerd client api timed out: " ++ env_logs env)
  | StepListen => Wrapf e ("dockerd listener error: " ++ env_logs env)
  | _ => e
  end.

(** The steps that run once the tracker exists (line 105 onwards). *)
Definition afterTracker (st : bootStep) : bool :=
  match st with
  | StepRequireRoot | StepLoadFile | StepMarshal => false
  | _ => true
  end.

(** The release actions registered before a step runs. *)
Definition registeredBefore (st : bootStep) : list closer :=
  match st with
  | StepRequireRoot | StepLoadFile | StepMarshal => []
  | StepMkdirTemp | StepNewDaemon | StepWriteFile | StepStart =>
      [ProxyGroupWait]
  | StepWaitUnix | StepNewClient => [ProxyGroupWait; DaemonStop]
  | StepWaitForAPI | StepCreateTemp | StepListen =>
      [ProxyGroupWait; DaemonStop; ClientClose]
  end.

(** All four, as registered by a bootstrap that succeeds. *)
Definition allClosers : list closer :=
  [ProxyGroupWait; DaemonStop; ClientClose; ListenerClose].
(** ** Resources *)

(** What the bootstrap takes from the system. *)
Inductive resource : Type :=
| WorkDir (path : string)       (* os.MkdirTemp *)
| DaemonProcess                 (* d.StartWithError *)
| ApiClient                     (* client.NewClientWithOpts *)
| TempFile (path : string)      (* os.CreateTemp *)
| Listener.                     (* net.Listen *)

(** The resource an event acquires. *)
Definition acquires (ev : event) : option resource :=
  match ev with
  | EvMkdirTemp p => Some (WorkDir p)
  | EvStart _ => Some DaemonProcess
  | EvNewClient => Some ApiClient
  | EvCreateTemp p => Some (TempFile p)
  | EvListen _ => Some Listener
  | _ => None
  end.

(** The resource an event gives back: a release action called, or the
    file removed on the spot. *)
Definition gives_back (ev : event) (r : resource) : bool :=
  match ev, r with
  | EvCall DaemonStop, DaemonProcess => true
  | EvCall ClientClose, ApiClient => true
  | EvCall ListenerClose, Listener => true
  | EvRemove p, TempFile q => String.eqb p q
  | _, _ => false
  end.

(** The resources acquired in a trace and not given back later in it. *)
Fixpoint leaked (tr : list event) : list resource :=
  match tr with
  | [] => []
  | ev :: tr' =>
      match acquires ev with
      | Some r =>
          if existsb (fun ev' => gives_back ev' r) tr'
          then leaked tr' else r :: leaked tr'
      | None => leaked tr'
      end
  end.

(** Whether the event right after each acquisition of [tr] registers a
    release action (or removes the file just created and closed). *)
Fixpoint releaseFollows (tr : list event) : bool :=
  match tr with
  | [] => true
  | ev :: tr' =>
      match acquires ev with
      | Some (TempFile p) =>
          match tr' with
          | EvFileClose _ :: EvRemove q :: _ => String.eqb p q
          | _ => false
          end
      | Some _ =>
          match tr' with
          | EvAppend _ :: _ => true
          | _ => false
          end
      | None => true
      end && releaseFollows tr'
  end.

(** ** The relay *)

Definition connId : Type := nat.

(** What [listener.Accept] returns: a connection, or an error which is or
    is not due to the listener having been closed by teardown. *)
Inductive acceptResult : Type :=
| Accepted (tmpConn : connId)
| AcceptFailed (closedByTeardown : bool) (e : error).

(** What [dockerAPI.DialHijack] returns. *)
Inductive dialResult : Type :=
| Dialed (conn : connId)
| DialFailed (e : error).

(** A forwarding task started by [proxyGroup.Go]: [io.Copy(dst, src)]. *)
Inductive task : Type := Forward (dst src : connId).

(** How the accept loop stands: it returned, or it waits in [Accept]. *)
Inductive loopExit : Type :=
| Blocked
| Returned (e : option error).

(** The accept loop of lines 180 to 207.  Each element of the script is
    what one iteration receives: the answer of [Accept] and, used only
    when a connection was accepted, the answer of [DialHijack].  The
    result lists the tasks started, in order. *)
Fixpoint acceptLoop (script : list (acceptResult * dialResult))
    : list task * loopExit :=
  match script with
  | [] => ([], Blocked)
  | (AcceptFailed _ _, _) :: _ => ([], Returned None)
  | (Accepted tmpConn, DialFailed e) :: _ => ([], Returned (Some e))
  | (Accepted tmpConn, Dialed conn) :: rest =>
      let '(ts, x) := acceptLoop rest in
      (Forward conn tmpConn :: Forward tmpConn conn :: ts, x)
  end.

(** How [io.Copy] ends: at the end of the stream it reads (no error), on
    an error reading [src], or on an error writing [dst]. *)
Inductive copyResult : Type :=
| CopyEOF
| CopyReadError (e : error)
| CopyWriteError (e : error).

Inductive connOp : Type :=
| OpClose (c : connId)          (* Close: both directions *)
| OpCloseWrite (c : connId).    (* CloseWrite: the write side only *)

(** The body of a forwarding task: what it does to the connections once
    [io.Copy] is over, and the error it returns; [closeResult] is what
    [Close] answers. *)
Definition forward (t : task) (cp : copyResult) (closeResult : option error)
    : list connOp * option error :=
  match t, cp with
  | Forward dst src, CopyEOF => ([OpClose src], closeResult)
  | Forward dst src, CopyReadError e => ([], Some e)
  | Forward dst src, CopyWriteError e => ([], Some e)
  end.

(** The connection a task reads from, and its peer, which the task of the
    opposite direction reads from. *)
Definition readSide (t : task) : connId :=
  match t with Forward _ src => src end.

Definition peer (t : task) : connId :=
  match t with Forward dst _ => dst end.

Definition connOp_eqb (a b : connOp) : bool :=
  match a, b with
  | OpClose x, OpClose y => Nat.eqb x y
  | OpCloseWrite x, OpCloseWrite y => Nat.eqb x y
  | _, _ => false
  end.

(** Whether the operations close the connection [c], wholly or on its
    write side. *)
Definition closes (ops : list connOp) (c : connId) : bool :=
  existsb (fun o => connOp_eqb o (OpClose c) || connOp_eqb o (OpCloseWrite c))
          ops.

(** ** The tasks and the teardown, interleaved

    The accept loop, the forwarding tasks and the caller's teardown run
    concurrently.  A system state records whether the listener is open,
    whether the accept loop is still running, how many forwarding tasks
    are running, and the release actions the teardown has still to call.
    [errgroup.Group.Wait] blocks until every function started with [Go]
    has returned. *)
Record Sys : Type := mkSys {
  listenerOpen : bool;
  loopLive : bool;
  forwarders : nat;
  pending : list closer
}.

Inductive sysStep : Sys -> Sys -> Prop :=
| StepAccept lo n p :
    (* a connection is accepted and dialed: two tasks start *)
    sysStep (mkSys lo true n p) (mkSys lo true (S (S n)) p)
| StepLoopExit lo n p :
    (* Accept or DialHijack fails: the loop returns *)
    sysStep (mkSys lo true n p) (mkSys lo false n p)
| StepForwardExit lo ll n p :
    (* a forwarding task returns *)
    sysStep (mkSys lo ll (S n) p) (mkSys lo ll n p)
| StepRelease lo ll n c p :
    (* the teardown calls its next action, which is not the wait *)
    c <> ProxyGroupWait ->
    sysStep (mkSys lo ll n (c :: p))
            (mkSys (if closer_eqb c ListenerClose then false else lo) ll n p)
| StepWait lo p :
    (* the wait returns: no task of the group is running *)
    sysStep (mkSys lo false O (ProxyGroupWait :: p)) (mkSys lo false O p).

Inductive sysSteps : Sys -> Sys -> Prop :=
| StepsRefl s : sysSteps s s
| StepsSnoc s1 s2 s3 : sysSteps s1 s2 -> sysStep s2 s3 -> sysSteps s1 s3.

(** The system when [New] has returned the state [s]: the listener is
    open, the accept loop runs, and the teardown, when called, runs the
    actions of the tracker last registered first. *)
Definition sysAfterNew (s : State) : Sys :=
  mkSys true true O (rev (fns (deferF s))).

(** The teardown handle has returned. *)
Definition teardownReturned (y : Sys) : Prop := pending y = [].

(** Every task of the group has exited. *)
Definition allTasksExited (y : Sys) : Prop :=
  loopLive y = false /\ forwarders y = O.

(** What holds of every state the system reaches: the teardown goes
    through its four actions in order, the listener is closed from the
    first on, and the wait, which comes last, has found every task gone. *)
Definition sysInv (y : Sys) : Prop :=
  pending y = [ListenerClose; ClientClose; DaemonStop; ProxyGroupWait] \/
  (listenerOpen y = false /\
   (pending y = [ClientClose; DaemonStop; ProxyGroupWait] \/
    pending y = [DaemonStop; ProxyGroupWait] \/
    pending y = [ProxyGroupWait])) \/
  (listenerOpen y = false /\ pending y = [] /\
   loopLive y = false /\ forwarders y = O).


(** What one iteration of the accept loop starts, and whether it got both
    a connection and a stream. *)
Definition pairOf (x : acceptResult * dialResult) : list task :=
  match x with
  | (Accepted tmpConn, Dialed conn) =>
      [Forward conn tmpConn; Forward tmpConn conn]
  | _ => []
  end.

Definition bothOk (x : acceptResult * dialResult) : bool :=
  match x with
  | (Accepted _, Dialed _) => true
  | _ => false
  end.

(** ** Sample inputs *)

(** The second worker registered by [InitDockerdWorker]; the feature
    constants are declared elsewhere, their names stand for them. *)
Definition dockerdContainerd : moby :=
  mkMoby "dockerd-containerd" false
         ["FeatureSecurityMode"; "FeatureCNINetwork"]%string.

(** An environment in which every step succeeds, but for the answers
    given as arguments. *)
Definition sampleEnv (requireRoot newDaemon : option error)
    (listen : string + error) (close : closer -> option error) : Env :=
  mkEnv requireRoot
        (inl (mkBkConfig None []))
        (fun _ => inl "{}"%string)
        "logs"
        (inl "/tmp/integration1"%string)
        newDaemon
        None
        ""
        (fun _ => [])
        None
        None
        None
        (fun _ => None)
        (inl "/tmp/buildkit-integration2"%string)
        listen
        close.

Definition errNotRoot : error := ErrNew "must be root".
Definition errNoDaemon : error := ErrNew "dockerd not found".
Definition errEMFILE : error := ErrNew "accept: too many open files".
Definition errDial : error := ErrNew "hijack failed".

Definition envAllOk : Env :=
  sampleEnv None None (inl "/tmp/buildkit-integration2"%string)
            (fun _ => None).

Definition envNotRoot : Env :=
  sampleEnv (Some errNotRoot) None (inl "/tmp/buildkit-integration2"%string)
            (fun _ => None).

(** The daemon cannot be created, and the wait of the task group, called
    during the unwinding, fails as well. *)
Definition envNoDaemon : Env :=
  sampleEnv None (Some errNoDaemon) (inl "/tmp/buildkit-integration2"%string)
            (fun _ => Some (ErrNew "wait failed")).

(** What [New] returns in [envAllOk], and the state it leaves. *)
Definition resultsAllOk : results :=
  mkResults
    (Some (backend.mk "unix:///tmp/buildkit-integration2" false true
                      ["FeatureSecurityMode"; "FeatureCNINetwork"]%string))
    (Some deferF_F)
    None.

Definition stateAllOk : State :=
  mkState
    (mkCloser [ProxyGroupWait; DaemonStop; ClientClose; ListenerClose])
    [EvAppend ProxyGroupWait;
     EvMkdirTemp "/tmp/integration1";
     EvNewDaemon;
     EvWriteFile "/tmp/integration1/daemon.json";
     EvStart ["--config-file"; "/tmp/integration1/daemon.json";
              "--userland-proxy=false"; "--debug"]%string;
     EvAppend DaemonStop;
     EvWaitUnix;
     EvNewClient;
     EvAppend ClientClose;
     EvWaitForAPI 1 0;
     EvCreateTemp "/tmp/buildkit-integration2";
     EvFileClose "/tmp/buildkit-integration2";
     EvRemove "/tmp/buildkit-integration2";
     EvListen "/tmp/buildkit-integration2";
     EvAppend ListenerClose;
     EvGoAcceptLoop].

(** ** The remaining functions of the file *)

(** [moby.Name] and [moby.Rootless]. *)
Definition Name (c : moby) : string := name c.

Definition Rootless (c : moby) : bool := rootless c.

(** [IsTestDockerd]: [getenv] is the value of the variable
    [TEST_DOCKERD]. *)
Definition IsTestDockerd (getenv : string) : bool := String.eqb getenv "1".

(** [IsTestDockerdMoby]: [gb] is what [getBackend(sb)] returns and
    [sbName] what [sb.Name()] returns, both declared elsewhere. *)
Definition IsTestDockerdMoby (gb : backend.t + error) (sbName : string)
    : bool :=
  match gb with
  | inr _ => false
  | inl bk => backend.isDockerd bk && String.eqb sbName "dockerd"
  end.

(** The flags [New] computes for the daemon, lines 133 to 140. *)
Definition fixedFlags (dockerdConfigFile : string) : list string :=
  ["--config-file"; dockerdConfigFile; "--userland-proxy=false";
   "--debug"]%string.

(** Whether [ev] comes before [ev'] in the trace [tr]. *)
Definition before (ev ev' : event) (tr : list event) : Prop :=
  exists tr1 tr2 tr3, tr = tr1 ++ ev :: tr2 ++ ev' :: tr3.

(** The operations the two tasks of one accepted connection perform once
    their copies are over. *)
Definition pairOps (tmpConn conn : connId) (cp1 cp2 : copyResult)
    (close1 close2 : option error) : list connOp :=
  fst (forward (Forward conn tmpConn) cp1 close1) ++
  fst (forward (Forward tmpConn conn) cp2 close2).
(** ** Properties of the poller *)

Lemma wrap_id z : Duration.in_range z -> Duration.wrap z = z.
Proof.
  unfold Duration.in_range, Duration.wrap, Duration.min_int64, Duration.max_int64.
  intros H. rewrite Z.mod_small; lia.
Qed.

Section Poller.

Variable ping : nat -> option error.
Variable d : Z.
Hypothesis Hd : noOverflow d.

Lemma step_pos : 0 < step.
Proof. unfold step, Duration.Millisecond. lia. Qed.

Lemma maxAttempts_pos : (1 <= maxAttempts d)%nat.
Proof. unfold maxAttempts. lia. Qed.

(** Below the last attempt the deadline test fails, at it the test holds. *)
Lemma deadline_test (c : nat) :
  (S c <= maxAttempts d)%nat ->
  Duration.add (Z.of_nat c) 1 = Z.of_nat (S c) /\
  (Duration.mul (Z.of_nat (S c)) step >? d) = (S c =? maxAttempts d)%nat.
Proof.
  intros Hc. destruct Hd as [Hr Ho].
  pose proof step_pos as Hs.
  assert (Hm : Z.of_nat (S c) * step <= Duration.max_int64) by nia.
  assert (Hstep : step <= Duration.max_int64) by nia.
  split.
  - unfold Duration.add. rewrite wrap_id; [lia|].
    unfold Duration.in_range, Duration.min_int64 in *.
    unfold Duration.max_int64 in *. nia.
  - unfold Duration.mul. rewrite wrap_id.
    2:{ unfold Duration.in_range, Duration.min_int64. split; [nia|exact Hm]. }
    unfold maxAttempts in *.
    pose proof (Z.div_mod d step ltac:(lia)) as Hdm.
    pose proof (Z.mod_pos_bound d step Hs) as Hb.
    destruct (Nat.eqb_spec (S c) (Z.to_nat (Z.max 1 (d / step + 1)))) as [E|E].
    + apply Z.gtb_lt. nia.
    + rewrite Z.gtb_ltb. apply Z.ltb_ge. nia.
Qed.

(** The loop, started at call count [c] with [i = c], when the check
    first succeeds at call [k]. *)
Lemma loop_success (k : nat) : forall (fuel c : nat),
  (c < k <= maxAttempts d)%nat ->
  (forall j, (c < j < k)%nat -> ping j <> None) ->
  ping k = None ->
  (k - c <= fuel)%nat ->
  waitForAPI_loop fuel ping d (Z.of_nat c) c c =
    Some (mkPoll None k (k - 1)).
Proof.
  induction fuel as [|fuel IH]; intros c Hck Hfail Hk Hfuel; [lia|].
  cbn [waitForAPI_loop].
  destruct (Nat.eq_dec (S c) k) as [E|E].
  - subst k. rewrite Hk. do 2 f_equal. lia.
  - destruct (ping (S c)) eqn:Ep.
    2:{ exfalso. apply (Hfail (S c)); [lia|exact Ep]. }
    destruct (deadline_test c ltac:(lia)) as [Ha Ht].
    cbv zeta. rewrite Ha, Ht.
    replace (S c =? maxAttempts d)%nat with false
      by (symmetry; apply Nat.eqb_neq; lia).
    apply IH; try lia; try assumption.
    intros j Hj. apply Hfail. lia.
Qed.

(** The loop when the check fails on every allowed attempt. *)
Lemma loop_timeout : forall (fuel c : nat),
  (c < maxAttempts d)%nat ->
  (forall j, (c < j <= maxAttempts d)%nat -> ping j <> None) ->
  (maxAttempts d - c <= fuel)%nat ->
  waitForAPI_loop fuel ping d (Z.of_nat c) c c =
    Some (mkPoll (Some errPing) (maxAttempts d) (maxAttempts d - 1)).
Proof.
  induction fuel as [|fuel IH]; intros c Hc Hfail Hfuel; [lia|].
  cbn [waitForAPI_loop].
  destruct (ping (S c)) eqn:Ep.
  2:{ exfalso. apply (Hfail (S c)); [lia|exact Ep]. }
  destruct (deadline_test c ltac:(lia)) as [Ha Ht].
  cbv zeta. rewrite Ha, Ht.
  destruct (Nat.eqb_spec (S c) (maxAttempts d)) as [E|E].
  - rewrite <- E. do 2 f_equal. lia.
  - apply IH; try lia.
    intros j Hj. apply Hfail. lia.
Qed.

End Poller.

Section PollerSpec.

Variable ping : nat -> option error.
Variable d : Z.
Hypothesis Hd : noOverflow d.

(** More fuel does not change a result. *)
Lemma loop_fuel_mono : forall fuel fuel' (i : Z) c sl p,
  waitForAPI_loop fuel ping d i c sl = Some p ->
  (fuel <= fuel')%nat ->
  waitForAPI_loop fuel' ping d i c sl = Some p.
Proof.
  induction fuel as [|fuel IH]; intros fuel' i c sl p H Hle; [discriminate|].
  destruct fuel' as [|fuel']; [lia|].
  cbn [waitForAPI_loop] in *.
  destruct (ping (S c)); [|exact H].
  cbv zeta in *.
  destruct (Duration.mul (Duration.add i 1) step >? d); [exact H|].
  apply IH with (fuel' := fuel') in H; [exact H|lia].
Qed.

(** Either every allowed attempt fails or there is a first success. *)
Lemma first_success_or_fail : forall n,
  failsUpTo ping n \/
  exists k, (1 <= k <= n)%nat /\ ping k = None /\
            forall j, (1 <= j < k)%nat -> ping j <> None.
Proof.
  induction n as [|n IH].
  - left. intros k Hk. lia.
  - destruct IH as [Hf | (k & Hk & Hp & Hj)].
    + destruct (ping (S n)) eqn:E.
      * left. intros k Hk.
        destruct (Nat.eq_dec k (S n)) as [->|]; [congruence|].
        apply Hf. lia.
      * right. exists (S n). split; [lia|]. split; [exact E|].
        intros j Hj. apply Hf. lia.
    + right. exists k. split; [lia|]. split; assumption.
Qed.

Lemma waitForAPI_success (k fuel : nat) :
  (1 <= k <= maxAttempts d)%nat ->
  (forall j, (1 <= j < k)%nat -> ping j <> None) ->
  ping k = None ->
  (k <= fuel)%nat ->
  waitForAPI fuel ping d = Some (mkPoll None k (k - 1)).
Proof.
  intros Hk Hj Hp Hf. unfold waitForAPI.
  apply (loop_success ping d Hd k fuel O); try lia; assumption.
Qed.

Lemma waitForAPI_timeout (fuel : nat) :
  failsUpTo ping (maxAttempts d) ->
  (maxAttempts d <= fuel)%nat ->
  waitForAPI fuel ping d =
    Some (mkPoll (Some errPing) (maxAttempts d) (maxAttempts d - 1)).
Proof.
  intros Hf Hfuel. unfold waitForAPI.
  pose proof (maxAttempts_pos d).
  apply (loop_timeout ping d Hd fuel O); try lia.
  intros j Hj. apply Hf. lia.
Qed.

(** With fuel for every allowed attempt the poller returns. *)
Lemma waitForAPI_total (fuel : nat) :
  (maxAttempts d <= fuel)%nat ->
  exists p, waitForAPI fuel ping d = Some p.
Proof.
  intros Hfuel.
  destruct (first_success_or_fail (maxAttempts d))
    as [Hf | (k & Hk & Hp & Hj)].
  - eexists. apply waitForAPI_timeout; assumption.
  - eexists. apply (waitForAPI_success k); try assumption. lia.
Qed.

End PollerSpec.

(** C5, as amended.  For a deadline [d] whose last deadline test stays
    within [int64], the poller allows [max 1 (d / 50ms + 1)] attempts.  It
    returns nil exactly when the check succeeds on one of them; it then
    returns at the first success [k], after [k] calls and [k - 1] sleeps,
    so without sleeping when [k = 1].  When the check fails on all of
    them the poller returns its error after that many calls and one sleep
    fewer.  Given fuel for that many iterations it always returns. *)
Theorem waitForAPI_spec (ping : nat -> option error) (d : Z)
    (Hd : noOverflow d) :
  (forall k fuel,
      (1 <= k <= maxAttempts d)%nat ->
      (forall j, (1 <= j < k)%nat -> ping j <> None) ->
      ping k = None -> (k <= fuel)%nat ->
      waitForAPI fuel ping d = Some (mkPoll None k (k - 1))) /\
  (forall fuel,
      failsUpTo ping (maxAttempts d) -> (maxAttempts d <= fuel)%nat ->
      waitForAPI fuel ping d =
        Some (mkPoll (Some errPing) (maxAttempts d) (maxAttempts d - 1))) /\
  (forall fuel p,
      waitForAPI fuel ping d = Some p ->
      (poll_err p = None <->
       exists k, (1 <= k <= maxAttempts d)%nat /\ ping k = None)) /\
  (forall fuel, (maxAttempts d <= fuel)%nat ->
      exists p, waitForAPI fuel ping d = Some p).
Proof.
  split; [|split; [|split]].
  - intros k fuel Hk Hj Hp Hf. apply waitForAPI_success; assumption.
  - intros fuel Hf Hfuel. apply waitForAPI_timeout; assumption.
  - intros fuel p H.
    destruct (first_success_or_fail ping (maxAttempts d))
      as [Hf | (k & Hk & Hp & Hj)].
    + pose proof (waitForAPI_timeout ping d Hd (Nat.max fuel (maxAttempts d))
                    Hf ltac:(lia)) as Ht.
      unfold waitForAPI in *.
      apply loop_fuel_mono with (fuel' := Nat.max fuel (maxAttempts d)) in H;
        [|lia].
      rewrite Ht in H. injection H as <-. cbn [poll_err]. split.
      * discriminate.
      * intros (k & Hk & Hp). exfalso. exact (Hf k Hk Hp).
    + pose proof (waitForAPI_success ping d Hd k (Nat.max fuel k)
                    Hk Hj Hp ltac:(lia)) as Hs.
      unfold waitForAPI in *.
      apply loop_fuel_mono with (fuel' := Nat.max fuel k) in H; [|lia].
      rewrite Hs in H. injection H as <-. cbn [poll_err]. split.
      * intros _. exists k. split; assumption.
      * reflexivity.
  - intros fuel Hfuel. apply waitForAPI_total; assumption.
Qed.

Lemma noOverflow_200ms : noOverflow (200 * Duration.Millisecond).
Proof.
  unfold noOverflow, Duration.in_range. vm_compute.
  repeat split; discriminate.
Qed.

(** The deadline of 200ms: a check that never succeeds gets 5 attempts and
    4 sleeps; a check that succeeds at once causes no sleep. *)
Lemma waitForAPI_spec_witness :
  noOverflow (200 * Duration.Millisecond) /\
  waitForAPI 5 (fun _ => Some (ErrNew "down")) (200 * Duration.Millisecond) =
    Some (mkPoll (Some errPing) 5 4) /\
  waitForAPI 5 (fun _ => None) (200 * Duration.Millisecond) =
    Some (mkPoll None 1 0).
Proof.
  split; [exact noOverflow_200ms|].
  destruct (waitForAPI_spec (fun _ => Some (ErrNew "down"))
              (200 * Duration.Millisecond) noOverflow_200ms)
    as (_ & Ht & _).
  destruct (waitForAPI_spec (fun _ => None)
              (200 * Duration.Millisecond) noOverflow_200ms)
    as (Hs & _).
  split.
  - apply (Ht 5%nat).
    + intros k _. discriminate.
    + vm_compute. lia.
  - apply (Hs 1%nat 5%nat).
    + vm_compute. lia.
    + intros j Hj. lia.
    + reflexivity.
    + lia.
Defined.

(** C5 as stated fails for a negative deadline: the claim allows
    [floor(d/50ms) + 1 = 0] attempts, the poller makes one and succeeds
    with it. *)
Lemma waitForAPI_negative_deadline :
  ~ (forall (ping : nat -> option error) (d : Z),
       Duration.in_range d ->
       ((exists fuel p, waitForAPI fuel ping d = Some p /\ poll_err p = None)
        <->
        (exists k, (1 <= k)%nat /\ Z.of_nat k <= d / step + 1 /\
                   ping k = None))).
Proof.
  intros H.
  destruct (H (fun _ => None) (-1)) as [Hl _].
  { unfold Duration.in_range. vm_compute. split; discriminate. }
  destruct Hl as (k & Hk & Hle & _).
  - exists 1%nat, (mkPoll None 1 0). split; reflexivity.
  - assert (E : -1 / step + 1 = 0) by reflexivity.
    rewrite E in Hle. lia.
Qed.

(** ** The bootstrap *)

Lemma noOverflow_5s : noOverflow (5 * Duration.Second).
Proof.
  unfold noOverflow, Duration.in_range. vm_compute.
  repeat split; discriminate.
Qed.

(** The poller called by [New] always returns. *)
Lemma poll_returns (ping : nat -> option error) :
  exists p, waitForAPI pollFuel ping (5 * Duration.Second) = Some p.
Proof.
  apply waitForAPI_total; [exact noOverflow_5s|].
  apply Nat.leb_le. vm_compute. reflexivity.
Qed.

Ltac unfold_New :=
  unfold New, New_body, firstFailure, firstFailureIn, bootSteps, stepError,
    errOf, deferred, callHandle, mc_F, invoke, bind, try, tryGet, returnErr,
    returnWith, ret, emit, append, diverge, mc_append, initState in *.

(** Opens the environment, replaces the call of the poller by its result
    and unfolds [New]. *)
Ltac open_New env :=
  let p := fresh "p" in
  let Hp := fresh "Hp" in
  destruct env as [a_rr a_lf a_ma a_logs a_mk a_nd a_wf a_xf a_sf a_st a_wu a_nc a_pg a_ct a_li a_clo];
  destruct (poll_returns a_pg) as [p Hp];
  unfold_New; cbn [env_ping] in *; rewrite Hp in *; clear Hp;
  destruct p as [pe pc ps]; cbn in *.

(** Splits on the next answer of the environment that decides the run. *)
Ltac next_answer :=
  match goal with
  | H : context [match ?x with Some _ => _ | None => _ end] |- _ =>
      is_var x; destruct x; cbn in *
  | H : context [match ?x with inl _ => _ | inr _ => _ end] |- _ =>
      is_var x; destruct x; cbn in *
  | H : context [match ?f ?a with inl _ => _ | inr _ => _ end] |- _ =>
      is_var f; destruct (f a); cbn in *
  | |- context [match ?x with Some _ => _ | None => _ end] =>
      is_var x; destruct x; cbn in *
  | |- context [match ?x with inl _ => _ | inr _ => _ end] =>
      is_var x; destruct x; cbn in *
  | |- context [match ?f ?a with inl _ => _ | inr _ => _ end] =>
      is_var f; destruct (f a); cbn in *
  end.

(** [New] returns in every environment. *)
Lemma New_total (env : Env) (c : moby) : exists r s, New env c = Some (r, s).
Proof.
  open_New env. repeat next_answer; eauto.
Qed.

(** What [New] does when a step fails. *)
Lemma New_unwind (env : Env) (c : moby) (st : bootStep) (e : error) :
  firstFailure env c = Some (st, e) ->
  exists s,
    New env c = Some (mkResults None None (Some (decorate env st e)), s) /\
    releaseAllCalls (trace s) = (if afterTracker st then 1 else 0)%nat /\
    fns (deferF s) = [] /\
    registered (trace s) = registeredBefore st /\
    released (trace s) = rev (registeredBefore st) /\
    (afterTracker st = false -> trace s = []).
Proof.
  intros H. open_New env.
  repeat (next_answer; try discriminate);
    injection H as <- <-; cbn; eexists; repeat split;
    first [reflexivity | discriminate].
Qed.

(** What [New] does when no step fails. *)
Lemma New_success (env : Env) (c : moby) :
  firstFailure env c = None ->
  exists addr s,
    env_listen env = inl addr /\
    New env c =
      Some (mkResults
              (Some (backend.mk ("unix://" ++ addr) (rootless c) true
                                (unsupported c)))
              (Some deferF_F) None, s) /\
    fns (deferF s) = allClosers /\
    registered (trace s) = allClosers /\
    released (trace s) = [] /\
    releaseAllCalls (trace s) = O.
Proof.
  intros H. open_New env.
  repeat (next_answer; try discriminate).
  do 2 eexists. repeat split; reflexivity.
Qed.

(** ** Calling the teardown handle *)

Lemma released_app (tr1 tr2 : list event) :
  released (tr1 ++ tr2) = released tr1 ++ released tr2.
Proof.
  induction tr1 as [|ev tr1 IH]; [reflexivity|].
  destruct ev; cbn; rewrite ?IH; reflexivity.
Qed.

Lemma registered_app (tr1 tr2 : list event) :
  registered (tr1 ++ tr2) = registered tr1 ++ registered tr2.
Proof.
  induction tr1 as [|ev tr1 IH]; [reflexivity|].
  destruct ev; cbn; rewrite ?IH; reflexivity.
Qed.

Lemma releaseAllCalls_app (tr1 tr2 : list event) :
  releaseAllCalls (tr1 ++ tr2) =
    (releaseAllCalls tr1 + releaseAllCalls tr2)%nat.
Proof.
  induction tr1 as [|ev tr1 IH]; [reflexivity|].
  destruct ev; cbn; rewrite ?IH; reflexivity.
Qed.

(** The actions of [l] are called one after the other: the trace grows by
    one call event for each, in the order of [l]. *)
Lemma callEach_trace (env : Env) (l : list closer) :
  forall tr e,
    fst (callEach (invoke env) l tr e) = tr ++ map EvCall l.
Proof.
  induction l as [|f l IH]; intros tr e; cbn.
  - rewrite app_nil_r. reflexivity.
  - rewrite IH, <- app_assoc. reflexivity.
Qed.

Lemma released_calls (l : list closer) : released (map EvCall l) = l.
Proof. induction l as [|f l IH]; cbn; rewrite ?IH; reflexivity. Qed.

Lemma registered_calls (l : list closer) : registered (map EvCall l) = [].
Proof. induction l as [|f l IH]; cbn; rewrite ?IH; reflexivity. Qed.

Lemma releaseAllCalls_calls (l : list closer) :
  releaseAllCalls (map EvCall l) = O.
Proof. induction l as [|f l IH]; cbn; rewrite ?IH; reflexivity. Qed.

(** One call of the handle: the trace it leaves and the tracker after. *)
Lemma callHandle_state (env : Env) (h : handle) (s : State) :
  fst (callHandle env h s) =
    mkState (mkCloser [])
            (trace s ++ [EvReleaseAll] ++ map EvCall (rev (fns (deferF s)))).
Proof.
  unfold callHandle, mc_F.
  pose proof (callEach_trace env (rev (fns (deferF s)))
                (trace s ++ [EvReleaseAll]) None) as H.
  destruct (callEach (invoke env) (rev (fns (deferF s)))
              (trace s ++ [EvReleaseAll]) None) as [tr e].
  cbn in *. subst tr. rewrite <- app_assoc. reflexivity.
Qed.

(** A call of the handle on an emptied tracker returns no error. *)
Lemma callHandle_empty (env : Env) (h : handle) (s : State) :
  fns (deferF s) = [] -> snd (callHandle env h s) = None.
Proof.
  intros H. unfold callHandle, mc_F. rewrite H. reflexivity.
Qed.

(** Further calls on an emptied tracker: no action is called, no error is
    returned, and the tracker stays empty. *)
Lemma callTimes_empty (env : Env) (h : handle) (n : nat) :
  forall s,
    fns (deferF s) = [] ->
    released (trace (fst (callTimes env h n s))) = released (trace s) /\
    registered (trace (fst (callTimes env h n s))) = registered (trace s) /\
    snd (callTimes env h n s) = repeat None n /\
    fns (deferF (fst (callTimes env h n s))) = [].
Proof.
  induction n as [|n IH]; intros s Hs; cbn.
  - repeat split; assumption.
  - pose proof (callHandle_state env h s) as Hst.
    pose proof (callHandle_empty env h s Hs) as He.
    destruct (callHandle env h s) as [s1 e1]. cbn in Hst, He. subst s1 e1.
    rewrite Hs in *. cbn [rev map app] in *.
    specialize (IH (mkState (mkCloser []) (trace s ++ [EvReleaseAll]))
                  eq_refl).
    destruct (callTimes env h n _) as [s2 es]. cbn in *.
    destruct IH as (Hr & Hg & Hes & Hf).
    rewrite Hr, Hg, released_app, registered_app, Hes. cbn.
    rewrite !app_nil_r. repeat split; assumption.
Qed.

Lemma NoDup_allClosers : NoDup (rev allClosers).
Proof.
  cbn. repeat constructor; cbn; intuition discriminate.
Qed.

(** ** The claims on the bootstrap *)

(** C1, as amended.  When a step of the bootstrap fails, [New] returns no
    backend, no teardown handle, and the error of that step with the
    context [New] adds to it, whatever the release actions answer.  When
    the failing step comes after the creation of the tracker ([MkdirTemp]
    and later), the aggregate release has been called once before [New]
    returns and the tracker is left empty; when it is [requireRoot], the
    loading of the configuration or its marshalling, [New] returns before
    any tracker exists and nothing is called. *)
Theorem New_returns_step_error (env : Env) (c : moby) (st : bootStep)
    (e : error) :
  firstFailure env c = Some (st, e) ->
  exists s,
    New env c = Some (mkResults None None (Some (decorate env st e)), s) /\
    rootCause (decorate env st e) = rootCause e /\
    (afterTracker st = true ->
       releaseAllCalls (trace s) = 1%nat /\ fns (deferF s) = []) /\
    (afterTracker st = false -> trace s = []).
Proof.
  intros H.
  destruct (New_unwind env c st e H) as (s & HN & Hc & Hf & _ & _ & Ht).
  exists s. split; [exact HN|]. split.
  - destruct st; reflexivity.
  - split; [|exact Ht].
    intros Ha. rewrite Ha in Hc. split; assumption.
Qed.

Lemma New_returns_step_error_witness :
  firstFailure envNoDaemon dockerdContainerd =
    Some (StepNewDaemon, errNoDaemon) /\
  exists s,
    New envNoDaemon dockerdContainerd =
      Some (mkResults None None
              (Some (Errorf "new daemon error: %q, logs" errNoDaemon)), s) /\
    releaseAllCalls (trace s) = 1%nat.
Proof.
  split; [reflexivity|].
  destruct (New_returns_step_error envNoDaemon dockerdContainerd
              StepNewDaemon errNoDaemon eq_refl)
    as (s & HN & _ & Ha & _).
  exists s. split; [exact HN|]. exact (proj1 (Ha eq_refl)).
Defined.

(** C1 as stated fails when [requireRoot] fails: [New] returns the error
    without ever calling the aggregate release, no tracker existing yet. *)
Lemma New_requireRoot_calls_no_release :
  ~ (forall (env : Env) (c : moby) (st : bootStep) (e : error),
       firstFailure env c = Some (st, e) ->
       exists s,
         New env c = Some (mkResults None None (Some (decorate env st e)), s)
         /\ (1 <= releaseAllCalls (trace s))%nat).
Proof.
  intros H.
  destruct (H envNotRoot dockerdContainerd StepRequireRoot errNotRoot eq_refl)
    as (s & HN & Hc).
  cbn in HN. injection HN as <-. cbn in Hc. lia.
Qed.

(** C4.  In every run of [New], the release actions registered are a
    prefix of: the wait of the task group, the stop of the daemon, the
    close of the client, the close of the listener.  When a step fails,
    the unwinding has called exactly the actions registered before that
    step, each once, the last registered first.  When no step fails, no
    action is called by [New], and the teardown handle calls exactly the
    four registered actions, each once, the last registered first. *)
Theorem releaseAll_reverse_order (env : Env) (c : moby) (r : results)
    (s : State) :
  New env c = Some (r, s) ->
  (forall st e,
      firstFailure env c = Some (st, e) ->
      registered (trace s) = registeredBefore st /\
      released (trace s) = rev (registered (trace s)) /\
      NoDup (released (trace s))) /\
  (firstFailure env c = None ->
      forall h,
        registered (trace s) = allClosers /\
        released (trace s) = [] /\
        released (trace (fst (callHandle env h s))) =
          rev (registered (trace s)) /\
        NoDup (released (trace (fst (callHandle env h s))))).
Proof.
  intros HN. split.
  - intros st e H.
    destruct (New_unwind env c st e H) as (s' & HN' & _ & _ & Hg & Hr & _).
    rewrite HN in HN'. injection HN' as _ <-.
    rewrite Hr, Hg. repeat split.
    destruct st; cbn; repeat constructor; cbn; intuition discriminate.
  - intros H h.
    destruct (New_success env c H) as (addr & s' & _ & HN' & Hf & Hg & Hr & _).
    rewrite HN in HN'. injection HN' as _ <-.
    rewrite callHandle_state. cbn [trace].
    rewrite !released_app, released_calls, Hr, Hg, Hf. cbn [released app].
    repeat split. exact NoDup_allClosers.
Qed.

Lemma New_envAllOk :
  New envAllOk dockerdContainerd = Some (resultsAllOk, stateAllOk).
Proof. vm_compute. reflexivity. Qed.

Lemma releaseAll_reverse_order_witness :
  New envAllOk dockerdContainerd = Some (resultsAllOk, stateAllOk) /\
  released (trace (fst (callHandle envAllOk deferF_F stateAllOk))) =
    [ListenerClose; ClientClose; DaemonStop; ProxyGroupWait].
Proof.
  split; [exact New_envAllOk|].
  destruct (releaseAll_reverse_order envAllOk dockerdContainerd
              resultsAllOk stateAllOk New_envAllOk) as [_ Hs].
  destruct (Hs eq_refl deferF_F) as (_ & _ & Hr & _).
  exact Hr.
Defined.

(** C9.  After a bootstrap that succeeded, the first call of the teardown
    handle calls the four release actions; any number of further calls
    return no error and call no release action, so that no action is ever
    called twice. *)
Theorem teardown_idempotent (env : Env) (c : moby) (r : results) (s : State)
    (h : handle) (n : nat) :
  New env c = Some (r, s) ->
  err r = None ->
  cl r = Some h ->
  let s1 := fst (callHandle env h s) in
  let s2 := fst (callTimes env h n s1) in
  released (trace s1) = rev allClosers /\
  released (trace s2) = released (trace s1) /\
  NoDup (released (trace s2)) /\
  snd (callTimes env h n s1) = repeat None n.
Proof.
  intros HN He Hc s1 s2.
  destruct (firstFailure env c) as [[st e]|] eqn:Hff.
  - destruct (New_unwind env c st e Hff) as (s' & HN' & _).
    rewrite HN in HN'. injection HN' as -> _. discriminate He.
  - destruct (New_success env c Hff)
      as (addr & s' & _ & HN' & Hf & Hg & Hr & _).
    rewrite HN in HN'. injection HN' as _ <-.
    assert (H1 : released (trace s1) = rev allClosers).
    { subst s1. rewrite callHandle_state. cbn [trace].
      rewrite !released_app, released_calls, Hr, Hf. reflexivity. }
    assert (Hempty : fns (deferF s1) = []).
    { subst s1. rewrite callHandle_state. reflexivity. }
    destruct (callTimes_empty env h n s1 Hempty) as (Hr2 & _ & Hes & _).
    fold s2 in Hr2.
    split; [exact H1|]. split; [exact Hr2|]. split; [|exact Hes].
    rewrite Hr2, H1. exact NoDup_allClosers.
Qed.

Lemma teardown_idempotent_witness :
  New envAllOk dockerdContainerd = Some (resultsAllOk, stateAllOk) /\
  err resultsAllOk = None /\ cl resultsAllOk = Some deferF_F /\
  snd (callTimes envAllOk deferF_F 3
         (fst (callHandle envAllOk deferF_F stateAllOk))) =
    [None; None; None] /\
  released (trace (fst (callTimes envAllOk deferF_F 3
                          (fst (callHandle envAllOk deferF_F stateAllOk))))) =
    [ListenerClose; ClientClose; DaemonStop; ProxyGroupWait].
Proof.
  split; [exact New_envAllOk|].
  split; [reflexivity|]. split; [reflexivity|].
  destruct (teardown_idempotent envAllOk dockerdContainerd resultsAllOk
              stateAllOk deferF_F 3 New_envAllOk eq_refl eq_refl)
    as (H1 & H2 & _ & Hes).
  split; [exact Hes|].
  exact (eq_trans H2 H1).
Defined.

(** C10.  When [New] returns no error, the backend it returns has the
    address of the local listener prefixed by [unix://], the rootless flag
    of the worker, the flag [isDockerd] set, and the worker's list of
    unsupported features; the teardown handle returned with it is not
    nil. *)
Theorem New_backend (env : Env) (c : moby) (r : results) (s : State) :
  New env c = Some (r, s) ->
  err r = None ->
  exists addr,
    env_listen env = inl addr /\
    b r = Some (backend.mk ("unix://" ++ addr) (rootless c) true
                           (unsupported c)) /\
    cl r = Some deferF_F.
Proof.
  intros HN He.
  destruct (firstFailure env c) as [[st e]|] eqn:Hff.
  - destruct (New_unwind env c st e Hff) as (s' & HN' & _).
    rewrite HN in HN'. injection HN' as -> _. discriminate He.
  - destruct (New_success env c Hff) as (addr & s' & Hl & HN' & _).
    rewrite HN in HN'. injection HN' as -> _.
    exists addr. repeat split. exact Hl.
Qed.

Lemma New_backend_witness :
  New envAllOk dockerdContainerd = Some (resultsAllOk, stateAllOk) /\
  err resultsAllOk = None /\
  exists addr,
    env_listen envAllOk = inl addr /\
    b resultsAllOk =
      Some (backend.mk ("unix://" ++ addr) false true
              ["FeatureSecurityMode"; "FeatureCNINetwork"]%string).
Proof.
  split; [exact New_envAllOk|].
  split; [reflexivity|].
  destruct (New_backend envAllOk dockerdContainerd resultsAllOk stateAllOk
              New_envAllOk eq_refl) as (addr & Hl & Hb & _).
  exists addr. split; [exact Hl|exact Hb].
Defined.

(** C6 at work: the daemon cannot be created after the working directory
    was.  [New] registers no release action after [MkdirTemp], the
    unwinding calls the wait of the task group only, and the directory is
    left behind. *)
Theorem New_leaves_workDir :
  exists s,
    New envNoDaemon dockerdContainerd =
      Some (mkResults None None
              (Some (Errorf "new daemon error: %q, logs" errNoDaemon)), s) /\
    trace s = [EvAppend ProxyGroupWait; EvMkdirTemp "/tmp/integration1";
               EvReleaseAll; EvCall ProxyGroupWait] /\
    leaked (trace s) = [WorkDir "/tmp/integration1"] /\
    releaseFollows (trace s) = false.
Proof.
  exists (mkState (mkCloser [])
            [EvAppend ProxyGroupWait; EvMkdirTemp "/tmp/integration1";
             EvReleaseAll; EvCall ProxyGroupWait]).
  split; [vm_compute; reflexivity|].
  repeat split.
Qed.

(** ** The accept loop *)

(** As long as every iteration gets a connection and a stream, the loop
    starts the two tasks of each and goes on with the rest of the script. *)
Lemma acceptLoop_app (pre rest : list (acceptResult * dialResult)) :
  forallb bothOk pre = true ->
  acceptLoop (pre ++ rest) =
    (flat_map pairOf pre ++ fst (acceptLoop rest), snd (acceptLoop rest)).
Proof.
  induction pre as [|[a d] pre IH]; intros H.
  - cbn. destruct (acceptLoop rest). reflexivity.
  - destruct a as [tmpConn|cb e]; [|discriminate].
    destruct d as [conn|e]; [|discriminate].
    cbn in H. cbn [app acceptLoop]. rewrite (IH H). reflexivity.
Qed.

(** C2, as amended.  When [DialHijack] fails for an accepted connection,
    the accept loop returns that error and accepts no more: the
    connections accepted before have their two forwarding tasks, the
    connection for which the dial failed and all later ones have none. *)
Theorem acceptLoop_dial_failure (pre post : list (acceptResult * dialResult))
    (tmpConn : connId) (e : error) :
  forallb bothOk pre = true ->
  acceptLoop (pre ++ (Accepted tmpConn, DialFailed e) :: post) =
    (flat_map pairOf pre, Returned (Some e)).
Proof.
  intros H. rewrite (acceptLoop_app pre _ H). cbn.
  rewrite app_nil_r. reflexivity.
Qed.

Lemma acceptLoop_dial_failure_witness :
  forallb bothOk [(Accepted 1%nat, Dialed 10%nat)] = true /\
  acceptLoop [(Accepted 1%nat, Dialed 10%nat);
              (Accepted 2%nat, DialFailed errDial);
              (Accepted 3%nat, Dialed 30%nat)] =
    ([Forward 10%nat 1%nat; Forward 1%nat 10%nat], Returned (Some errDial)).
Proof.
  split; [reflexivity|].
  exact (acceptLoop_dial_failure [(Accepted 1%nat, Dialed 10%nat)]
           [(Accepted 3%nat, Dialed 30%nat)] 2%nat errDial eq_refl).
Defined.

(** C2 as stated fails: a connection accepted after a failed dial, whose
    own dial would succeed, gets no forwarding task. *)
Lemma acceptLoop_stops_after_dial_failure :
  ~ (forall (pre post : list (acceptResult * dialResult))
            (tmpConn : connId) (e : error) (tmpConn' conn' : connId),
       forallb bothOk (pre ++ post) = true ->
       In (Accepted tmpConn', Dialed conn') post ->
       let ts :=
         fst (acceptLoop (pre ++ (Accepted tmpConn, DialFailed e) :: post)) in
       In (Forward conn' tmpConn') ts /\ In (Forward tmpConn' conn') ts).
Proof.
  intros H.
  destruct (H [] [(Accepted 2%nat, Dialed 20%nat)] 1%nat errDial 2%nat 20%nat
              eq_refl (or_introl eq_refl)) as [H1 _].
  exact H1.
Qed.

(** C3, as amended.  Whatever the cause of an error of [Accept], closed
    listener or not, the accept loop returns and reports no error. *)
Theorem acceptLoop_accept_error (pre post : list (acceptResult * dialResult))
    (closedByTeardown : bool) (e : error) (d : dialResult) :
  forallb bothOk pre = true ->
  acceptLoop (pre ++ (AcceptFailed closedByTeardown e, d) :: post) =
    (flat_map pairOf pre, Returned None).
Proof.
  intros H. rewrite (acceptLoop_app pre _ H). cbn.
  rewrite app_nil_r. reflexivity.
Qed.

Lemma acceptLoop_accept_error_witness :
  forallb bothOk [(Accepted 1%nat, Dialed 10%nat)] = true /\
  acceptLoop [(Accepted 1%nat, Dialed 10%nat);
              (AcceptFailed false errEMFILE, Dialed 20%nat)] =
    ([Forward 10%nat 1%nat; Forward 1%nat 10%nat], Returned None).
Proof.
  split; [reflexivity|].
  exact (acceptLoop_accept_error [(Accepted 1%nat, Dialed 10%nat)] []
           false errEMFILE (Dialed 20%nat) eq_refl).
Defined.

(** C3 as stated fails: an error of [Accept] that is not due to the
    closing of the listener is not returned by the loop. *)
Lemma acceptLoop_hides_accept_error :
  ~ (forall (pre post : list (acceptResult * dialResult)) (e : error)
            (d : dialResult),
       forallb bothOk pre = true ->
       snd (acceptLoop (pre ++ (AcceptFailed false e, d) :: post)) =
         Returned (Some e)).
Proof.
  intros H.
  specialize (H [] [] errEMFILE (Dialed 20%nat) eq_refl).
  discriminate H.
Qed.

(** ** The forwarding tasks *)

(** C7, as amended.  A forwarding task that reaches the end of the stream
    it reads closes the connection it read from, wholly, and returns what
    that close answers; no task closes the write side alone of any
    connection. *)
Theorem forward_closes_read_side (t : task) (closeResult : option error) :
  forward t CopyEOF closeResult = ([OpClose (readSide t)], closeResult) /\
  forall (cp : copyResult) (c : connId),
    ~ In (OpCloseWrite c) (fst (forward t cp closeResult)).
Proof.
  destruct t as [dst src]. split; [reflexivity|].
  intros cp c. destruct cp; cbn; intuition discriminate.
Qed.

(** C7 as stated fails: at the end of the stream from the local
    connection 2, the task copying to the backend stream 1 closes the
    connection 2 and leaves its peer 1 untouched. *)
Lemma forward_leaves_peer_open :
  ~ (forall (t : task) (cp : copyResult) (closeResult : option error),
       cp = CopyEOF \/ (exists e, cp = CopyReadError e) ->
       closes (fst (forward t cp closeResult)) (peer t) = true).
Proof.
  intros H.
  specialize (H (Forward 1%nat 2%nat) CopyEOF None (or_introl eq_refl)).
  discriminate H.
Qed.

(** ** The teardown and the tasks *)

Lemma sysInv_step (y y' : Sys) : sysInv y -> sysStep y y' -> sysInv y'.
Proof.
  unfold sysInv. intros Hi Hs.
  destruct Hs; cbn in *;
    repeat match goal with
    | H : _ \/ _ |- _ => destruct H
    | H : _ /\ _ |- _ => destruct H
    end; subst; try discriminate;
    repeat match goal with
    | H : _ :: _ = _ :: _ |- _ => inversion H; clear H; subst
    end; cbn; try congruence; auto 10.
Qed.

Lemma sysInv_steps (y y' : Sys) : sysInv y -> sysSteps y y' -> sysInv y'.
Proof.
  intros Hi Hs. induction Hs as [|y1 y2 y3 _ IH Hst]; [exact Hi|].
  exact (sysInv_step _ _ (IH Hi) Hst).
Qed.

(** C8.  After a bootstrap that succeeded, the wait of the task group is
    the first release action registered and the last one the teardown
    handle calls, after the close of the listener.  In every interleaving
    of the accept loop, the forwarding tasks and the teardown, once the
    teardown has returned the listener is closed, the accept loop has
    returned and no forwarding task is running. *)
Theorem teardown_waits_for_tasks (env : Env) (c : moby) (r : results)
    (s : State) :
  New env c = Some (r, s) ->
  err r = None ->
  (exists rest, registered (trace s) = ProxyGroupWait :: rest) /\
  (forall h, exists before,
      released (trace (fst (callHandle env h s))) =
        before ++ [ProxyGroupWait] /\
      In ListenerClose before /\ ~ In ProxyGroupWait before) /\
  (forall y,
      sysSteps (sysAfterNew s) y -> teardownReturned y ->
      allTasksExited y /\ listenerOpen y = false).
Proof.
  intros HN He.
  destruct (firstFailure env c) as [[st e]|] eqn:Hff.
  - destruct (New_unwind env c st e Hff) as (s' & HN' & _).
    rewrite HN in HN'. injection HN' as -> _. discriminate He.
  - destruct (New_success env c Hff)
      as (addr & s' & _ & HN' & Hf & Hg & Hr & _).
    rewrite HN in HN'. injection HN' as _ <-.
    split; [|split].
    + rewrite Hg. eexists. reflexivity.
    + intros h. exists [ListenerClose; ClientClose; DaemonStop].
      rewrite callHandle_state. cbn [trace].
      rewrite !released_app, released_calls, Hr, Hf.
      split; [reflexivity|]. split; cbn; intuition discriminate.
    + intros y Hs Hret.
      assert (Hi : sysInv (sysAfterNew s)).
      { left. unfold sysAfterNew. rewrite Hf. reflexivity. }
      pose proof (sysInv_steps _ _ Hi Hs) as Hy.
      unfold teardownReturned in Hret. unfold sysInv in Hy.
      rewrite Hret in Hy. unfold allTasksExited.
      destruct Hy as [Hy | [[_ Hy] | (Hl & _ & Hll & Hfw)]].
      * discriminate Hy.
      * destruct Hy as [Hy | [Hy | Hy]]; discriminate Hy.
      * repeat split; assumption.
Qed.

Lemma teardown_waits_for_tasks_witness :
  New envAllOk dockerdContainerd = Some (resultsAllOk, stateAllOk) /\
  err resultsAllOk = None /\
  sysSteps (sysAfterNew stateAllOk) (mkSys false false O []) /\
  allTasksExited (mkSys false false O []).
Proof.
  split; [exact New_envAllOk|].
  split; [reflexivity|].
  assert (Hrun : sysSteps
                   (mkSys true true O
                      [ListenerClose; ClientClose; DaemonStop; ProxyGroupWait])
                   (mkSys false false O [])).
  { eapply StepsSnoc; [|apply (StepWait false [])].
    eapply StepsSnoc; [|apply (StepForwardExit false false O)].
    eapply StepsSnoc; [|apply (StepForwardExit false false 1)].
    eapply StepsSnoc; [|apply (StepLoopExit false 2)].
    eapply StepsSnoc;
      [|apply (StepRelease false true 2 DaemonStop); discriminate].
    eapply StepsSnoc;
      [|apply (StepRelease false true 2 ClientClose); discriminate].
    eapply StepsSnoc;
      [|apply (StepRelease true true 2 ListenerClose); discriminate].
    eapply StepsSnoc; [|apply (StepAccept true O)].
    apply StepsRefl. }
  split; [exact Hrun|].
  destruct (teardown_waits_for_tasks envAllOk dockerdContainerd
              resultsAllOk stateAllOk New_envAllOk eq_refl)
    as (_ & _ & Hall).
  exact (proj1 (Hall _ Hrun eq_refl)).
Defined.

(** ** Further properties of the poller *)

(** By the end of any run the poller has slept once less than it called
    the check, and has called it at most as often as fuel allows. *)
Lemma loop_counts (ping : nat -> option error) (d : Z) :
  forall fuel (i : Z) c sl p,
    waitForAPI_loop fuel ping d i c sl = Some p ->
    (c < poll_calls p <= c + fuel)%nat /\
    (poll_sleeps p + S c = poll_calls p + sl)%nat.
Proof.
  induction fuel as [|fuel IH]; intros i c sl p H; [discriminate|].
  cbn [waitForAPI_loop] in H.
  destruct (ping (S c)).
  - cbv zeta in H.
    destruct (Duration.mul (Duration.add i 1) step >? d).
    + injection H as <-. cbn. lia.
    + apply IH in H. lia.
  - injection H as <-. cbn. lia.
Qed.

(** The result of the poller for a deadline without overflow. *)
Lemma waitForAPI_result (ping : nat -> option error) (d : Z) (fuel : nat)
    (p : pollResult) :
  noOverflow d ->
  waitForAPI fuel ping d = Some p ->
  (1 <= poll_calls p <= maxAttempts d)%nat /\
  poll_sleeps p = (poll_calls p - 1)%nat /\
  (poll_calls p <= fuel)%nat /\
  (forall j, (1 <= j < poll_calls p)%nat -> ping j <> None) /\
  (poll_err p = None -> ping (poll_calls p) = None) /\
  (poll_err p <> None ->
     poll_err p = Some errPing /\ poll_calls p = maxAttempts d /\
     failsUpTo ping (maxAttempts d)).
Proof.
  intros Hd H.
  pose proof (loop_counts ping d fuel 0 O O p H) as [Hc _].
  pose proof (maxAttempts_pos d) as Hpos.
  destruct (first_success_or_fail ping (maxAttempts d))
    as [Hf | (k & Hk & Hp & Hj)].
  - pose proof (waitForAPI_timeout ping d Hd (Nat.max fuel (maxAttempts d))
                  Hf ltac:(lia)) as Ht.
    unfold waitForAPI in *.
    apply loop_fuel_mono with (fuel' := Nat.max fuel (maxAttempts d)) in H;
      [|lia].
    rewrite Ht in H. injection H as <-. cbn in *.
    split; [lia|]. split; [lia|]. split; [lia|].
    split; [intros j Hj; apply Hf; lia|]. split; [discriminate|].
    intros _. repeat split. exact Hf.
  - pose proof (waitForAPI_success ping d Hd k (Nat.max fuel k)
                  Hk Hj Hp ltac:(lia)) as Hs.
    unfold waitForAPI in *.
    apply loop_fuel_mono with (fuel' := Nat.max fuel k) in H; [|lia].
    rewrite Hs in H. injection H as <-. cbn in *.
    split; [lia|]. split; [lia|]. split; [lia|].
    split; [exact Hj|]. split; [intros _; exact Hp|].
    intros Hn. exfalso. apply Hn. reflexivity.
Qed.

(** X1.  For a deadline [d >= 0] without overflow, the poller sleeps once
    less than it calls the check, and the time it sleeps in total does not
    exceed the deadline. *)
Theorem waitForAPI_sleeps_within_deadline (ping : nat -> option error)
    (d : Z) (fuel : nat) (p : pollResult) :
  noOverflow d ->
  0 <= d ->
  waitForAPI fuel ping d = Some p ->
  poll_sleeps p = (poll_calls p - 1)%nat /\
  Z.of_nat (poll_sleeps p) * step <= d.
Proof.
  intros Hd H0 H.
  destruct (waitForAPI_result ping d fuel p Hd H) as (Hc & Hs & _).
  split; [exact Hs|].
  pose proof step_pos as Hstep.
  assert (Hm : Z.of_nat (maxAttempts d) = d / step + 1).
  { unfold maxAttempts.
    pose proof (Z.div_pos d step H0 Hstep). lia. }
  pose proof (Z.mul_div_le d step Hstep) as Hle.
  assert (Z.of_nat (poll_sleeps p) <= d / step) by lia.
  nia.
Qed.

Lemma waitForAPI_sleeps_within_deadline_witness :
  noOverflow (200 * Duration.Millisecond) /\
  0 <= 200 * Duration.Millisecond /\
  waitForAPI 5 (fun _ => Some (ErrNew "down")) (200 * Duration.Millisecond) =
    Some (mkPoll (Some errPing) 5 4) /\
  4 * step <= 200 * Duration.Millisecond.
Proof.
  split; [exact noOverflow_200ms|].
  split; [vm_compute; discriminate|].
  assert (H : waitForAPI 5 (fun _ => Some (ErrNew "down"))
                (200 * Duration.Millisecond) =
              Some (mkPoll (Some errPing) 5 4)) by (vm_compute; reflexivity).
  split; [exact H|].
  exact (proj2 (waitForAPI_sleeps_within_deadline _ _ _ _ noOverflow_200ms
                  ltac:(vm_compute; discriminate) H)).
Defined.

Lemma wrap_le_max (z : Z) : Duration.wrap z <= Duration.max_int64.
Proof.
  unfold Duration.wrap, Duration.max_int64.
  pose proof (Z.mod_pos_bound (z + 2 ^ 63) (2 ^ 64) ltac:(lia)). lia.
Qed.

(** X2.  With the largest deadline the deadline test can never hold: when
    the check fails on every call the poller never returns, whatever the
    number of iterations it is given. *)
Theorem waitForAPI_max_deadline_never_returns (ping : nat -> option error)
    (fuel : nat) :
  (forall k, ping k <> None) ->
  waitForAPI fuel ping Duration.max_int64 = None.
Proof.
  intros Hf. unfold waitForAPI.
  enough (Hloop : forall (i : Z) (c sl : nat),
             waitForAPI_loop fuel ping Duration.max_int64 i c sl = None)
    by apply Hloop.
  induction fuel as [|fuel IH]; intros i c sl; [reflexivity|].
  cbn [waitForAPI_loop].
  destruct (ping (S c)) eqn:E; [|exfalso; exact (Hf _ E)].
  cbv zeta.
  replace (Duration.mul (Duration.add i 1) step >? Duration.max_int64)
    with false.
  - apply IH.
  - symmetry. rewrite Z.gtb_ltb. apply Z.ltb_ge.
    unfold Duration.mul. apply wrap_le_max.
Qed.

Lemma waitForAPI_max_deadline_never_returns_witness :
  (forall k : nat, (fun _ : nat => Some errPing) k <> None) /\
  waitForAPI 300 (fun _ => Some errPing) Duration.max_int64 = None.
Proof.
  split; [intros k; discriminate|].
  apply (waitForAPI_max_deadline_never_returns (fun _ => Some errPing) 300).
  intros k. discriminate.
Defined.

Lemma maxAttempts_mono (d d' : Z) :
  d <= d' -> (maxAttempts d <= maxAttempts d')%nat.
Proof.
  intros H. unfold maxAttempts.
  pose proof (Z.div_le_mono d d' step step_pos H). lia.
Qed.

(** X3.  A longer deadline never turns a success into a failure: when the
    poller succeeds for a deadline, it succeeds for every longer one, on
    the same call and after the same sleeps. *)
Theorem waitForAPI_deadline_mono (ping : nat -> option error) (d d' : Z)
    (fuel : nat) (p : pollResult) :
  noOverflow d -> noOverflow d' -> d <= d' ->
  waitForAPI fuel ping d = Some p ->
  poll_err p = None ->
  waitForAPI fuel ping d' = Some p.
Proof.
  intros Hd Hd' Hle H He.
  destruct (waitForAPI_result ping d fuel p Hd H)
    as (Hc & Hs & Hfu & Hj & Hp & _).
  pose proof (maxAttempts_mono d d' Hle) as Hm.
  rewrite (waitForAPI_success ping d' Hd' (poll_calls p) fuel
             ltac:(lia) Hj (Hp He) Hfu).
  destruct p as [pe pc ps]. cbn in *. subst. reflexivity.
Qed.

Lemma waitForAPI_deadline_mono_witness :
  noOverflow (200 * Duration.Millisecond) /\
  noOverflow (5 * Duration.Second) /\
  waitForAPI 101 (fun k => if (k <? 3)%nat then Some errPing else None)
             (5 * Duration.Second) = Some (mkPoll None 3 2).
Proof.
  split; [exact noOverflow_200ms|]. split; [exact noOverflow_5s|].
  apply (waitForAPI_deadline_mono _ (200 * Duration.Millisecond)
           (5 * Duration.Second) 101 (mkPoll None 3 2)
           noOverflow_200ms noOverflow_5s).
  - vm_compute. discriminate.
  - vm_compute. reflexivity.
  - reflexivity.
Defined.

(** ** Further properties of the bootstrap *)


(** Goes through the membership of an event in a concrete trace. *)
Ltac in_trace H :=
  cbn in H;
  repeat match type of H with
  | _ \/ _ => destruct H as [H|H]
  end;
  try discriminate H; try contradiction.



(** X5.  Whatever step fails, the unwinding of [New] gives back every
    resource acquired but the working directory; after a bootstrap that
    succeeded, one call of the teardown handle does the same. *)
Theorem New_leaves_at_most_workDir (env : Env) (c : moby) (r : results)
    (s : State) :
  New env c = Some (r, s) ->
  (err r <> None ->
     leaked (trace s) = [] \/
     exists d, env_mkdirTemp env = inl d /\ leaked (trace s) = [WorkDir d]) /\
  (err r = None ->
     forall h, exists d,
       env_mkdirTemp env = inl d /\
       leaked (trace (fst (callHandle env h s))) = [WorkDir d]).
Proof.
  intros HN. split.
  - intros He. open_New env.
    repeat (next_answer; try discriminate);
      injection HN as <- <-; cbn in *; rewrite ?String.eqb_refl;
      try (left; reflexivity);
      try (right; eexists; split; reflexivity);
      exfalso; apply He; reflexivity.
  - intros He h. rewrite callHandle_state. open_New env.
    repeat (next_answer; try discriminate);
      injection HN as <- <-; try discriminate He.
    cbn. rewrite String.eqb_refl. eexists. split; reflexivity.
Qed.

Lemma New_leaves_at_most_workDir_witness :
  New envAllOk dockerdContainerd = Some (resultsAllOk, stateAllOk) /\
  leaked (trace (fst (callHandle envAllOk deferF_F stateAllOk))) =
    [WorkDir "/tmp/integration1"].
Proof.
  split; [exact New_envAllOk|].
  destruct (New_leaves_at_most_workDir envAllOk dockerdContainerd
              resultsAllOk stateAllOk New_envAllOk) as [_ Hs].
  destruct (Hs eq_refl deferF_F) as (d & Hd & Hl).
  vm_compute in Hd. injection Hd as <-. exact Hl.
Defined.

(** X6.  Whenever [New] starts the daemon, it has written the file
    [daemon.json] of the working directory before, and the flags of the
    daemon are the four fixed ones, with that file as configuration file,
    followed by the extra flags of the environment when the variable is
    not empty. *)
Theorem New_start_flags (env : Env) (c : moby) (r : results) (s : State)
    (flags : list string) :
  New env c = Some (r, s) ->
  In (EvStart flags) (trace s) ->
  exists d,
    env_mkdirTemp env = inl d /\
    before (EvWriteFile (d ++ "/daemon.json")) (EvStart flags) (trace s) /\
    flags =
      fixedFlags (d ++ "/daemon.json") ++
      (if String.eqb (env_extraFlags env) "" then []
       else env_splitFlags env (env_extraFlags env)).
Proof.
  intros HN Hin. open_New env.
  repeat (next_answer; try discriminate);
    injection HN as <- <-; in_trace Hin;
    injection Hin as <-;
    (eexists; split; [reflexivity|]; split; [|reflexivity];
     eexists [_; _; _], [], _; reflexivity).
Qed.

Lemma New_start_flags_witness :
  New envAllOk dockerdContainerd = Some (resultsAllOk, stateAllOk) /\
  exists d,
    env_mkdirTemp envAllOk = inl d /\
    ["--config-file"; "/tmp/integration1/daemon.json";
     "--userland-proxy=false"; "--debug"]%string =
      fixedFlags (d ++ "/daemon.json") ++ [].
Proof.
  split; [exact New_envAllOk|].
  assert (Hin : In (EvStart ["--config-file"; "/tmp/integration1/daemon.json";
                             "--userland-proxy=false"; "--debug"]%string)
                   (trace stateAllOk)).
  { cbn. do 4 right. left. reflexivity. }
  destruct (New_start_flags envAllOk dockerdContainerd resultsAllOk
              stateAllOk _ New_envAllOk Hin) as (d & Hd & _ & Hf).
  exists d. split; [exact Hd|exact Hf].
Defined.

(** ** The configuration of the daemon *)

Lemma existsb_eqb_In (x : string) (l : list string) :
  existsb (String.eqb x) l = true <-> In x l.
Proof.
  rewrite existsb_exists. split.
  - intros (y & Hy & E). apply String.eqb_eq in E. subst. exact Hy.
  - intros H. exists x. split; [exact H|apply String.eqb_refl].
Qed.

(** X7.  The daemon configuration [New] derives: the snapshotter of
    containerd is enabled for the worker [dockerd-containerd] only; each
    mirror of [docker.io] is passed on, in order, with [http://] before
    it; host networking and insecure security are allowed exactly when
    the entitlement of that name is listed, every other entitlement being
    ignored. *)
Theorem translateConfig_spec (c : moby) (bkcfg : bkConfig) :
  let dcfg := translateConfig c bkcfg in
  (containerdSnapshotter dcfg = true <-> name c = "dockerd-containerd"%string)
  /\
  (forall ms, dockerIoMirrors bkcfg = Some ms ->
     List.length (Mirrors dcfg) = List.length ms /\
     forall k m, nth_error ms k = Some m ->
       nth_error (Mirrors dcfg) k = Some ("http://" ++ m)%string) /\
  (dockerIoMirrors bkcfg = None -> Mirrors dcfg = []) /\
  (NetworkHost dcfg = true <->
     In "network.host"%string (Entitlements bkcfg)) /\
  (SecurityInsecure dcfg = true <->
     In "security.insecure"%string (Entitlements bkcfg)).
Proof.
  unfold translateConfig.
  cbn [containerdSnapshotter Mirrors NetworkHost SecurityInsecure].
  split; [apply String.eqb_eq|].
  split.
  { intros ms Hms. rewrite Hms. split; [apply List.length_map|].
    intros k m Hk. rewrite nth_error_map, Hk. reflexivity. }
  split.
  { intros Hms. rewrite Hms. reflexivity. }
  split; apply existsb_eqb_In.
Qed.

(** ** Further properties of the accept loop *)

(** Every script splits into the iterations that got a connection and a
    stream, for each of which the loop started two tasks, and the rest,
    on whose first iteration the loop returned. *)
Lemma acceptLoop_split (script : list (acceptResult * dialResult)) :
  exists pre rest,
    script = pre ++ rest /\
    forallb bothOk pre = true /\
    fst (acceptLoop script) = flat_map pairOf pre /\
    match rest with
    | [] => snd (acceptLoop script) = Blocked
    | x :: _ => bothOk x = false /\ snd (acceptLoop script) <> Blocked
    end.
Proof.
  induction script as [|[a d] script IH].
  - exists [], []. repeat split.
  - destruct a as [tmpConn|cb e].
    + destruct d as [conn|e].
      * destruct IH as (pre & rest & Hs & Hok & Hts & Hrest).
        exists ((Accepted tmpConn, Dialed conn) :: pre), rest.
        cbn [acceptLoop]. destruct (acceptLoop script) as [ts x].
        cbn in *. subst. repeat split; assumption.
      * exists [], ((Accepted tmpConn, DialFailed e) :: script).
        cbn. repeat split. discriminate.
    + exists [], ((AcceptFailed cb e, d) :: script).
      cbn. repeat split. discriminate.
Qed.



(** X9.  The accept loop returns only on an error: it is still waiting
    in [Accept] at the end of a script exactly when every iteration of the
    script got a connection and a stream. *)
Theorem acceptLoop_blocked_iff (script : list (acceptResult * dialResult)) :
  snd (acceptLoop script) = Blocked <-> forallb bothOk script = true.
Proof.
  destruct (acceptLoop_split script) as (pre & rest & Hs & Hok & _ & Hrest).
  subst script. rewrite forallb_app, Hok. cbn.
  destruct rest as [|x rest].
  - split; [reflexivity|intros _; exact Hrest].
  - destruct Hrest as [Hx Hn]. cbn. rewrite Hx. cbn.
    split; [intros H; contradiction|discriminate].
Qed.

(** ** The forwarding tasks of one connection *)

(** X11.  Of the two tasks of a connection, the one copying from the
    local connection is the only one to close it, and does so only when
    its copy ended without error; likewise for the backend stream.  When
    both copies end without error each connection is closed once; when a
    copy fails the connection it read from is not closed by the relay. *)
Theorem pairOps_closes (tmpConn conn : connId) (cp1 cp2 : copyResult)
    (close1 close2 : option error) :
  tmpConn <> conn ->
  let ops := pairOps tmpConn conn cp1 cp2 close1 close2 in
  (closes ops tmpConn = true <-> cp1 = CopyEOF) /\
  (closes ops conn = true <-> cp2 = CopyEOF) /\
  (cp1 = CopyEOF -> cp2 = CopyEOF -> ops = [OpClose tmpConn; OpClose conn]).
Proof.
  intros Hne.
  assert (H1 : Nat.eqb tmpConn conn = false) by (apply Nat.eqb_neq; exact Hne).
  assert (H2 : Nat.eqb conn tmpConn = false)
    by (apply Nat.eqb_neq; intros E; apply Hne; symmetry; exact E).
  unfold pairOps, closes.
  destruct cp1, cp2; cbn; rewrite ?Nat.eqb_refl, ?H1, ?H2; cbn;
    repeat split; intros; try reflexivity; try discriminate.
Qed.

Lemma pairOps_closes_witness :
  2%nat <> 1%nat /\
  pairOps 2%nat 1%nat CopyEOF CopyEOF None None =
    [OpClose 2%nat; OpClose 1%nat].
Proof.
  split; [discriminate|].
  destruct (pairOps_closes 2%nat 1%nat CopyEOF CopyEOF None None
              ltac:(discriminate)) as (_ & _ & H).
  exact (H eq_refl eq_refl).
Defined.

(** ** The test on the backend *)

(** X10.  For the backend [New] returns for a worker, in a sandbox that
    bears the name of that worker, [IsTestDockerdMoby] holds exactly when
    the worker is named [dockerd]; it never holds for the worker whose
    daemon runs the snapshotter of containerd, nor when no backend could
    be found. *)
Theorem IsTestDockerdMoby_New (env : Env) (c : moby) (r : results)
    (s : State) (bk : backend.t) :
  New env c = Some (r, s) ->
  b r = Some bk ->
  (IsTestDockerdMoby (inl bk) (Name c) = true <-> name c = "dockerd"%string)
  /\
  (forall bkcfg,
      containerdSnapshotter (translateConfig c bkcfg) = true ->
      IsTestDockerdMoby (inl bk) (Name c) = false) /\
  (forall e sbName, IsTestDockerdMoby (inr e) sbName = false).
Proof.
  intros HN Hb.
  assert (Hd : backend.isDockerd bk = true).
  { destruct (firstFailure env c) as [[st e]|] eqn:Hff.
    - destruct (New_unwind env c st e Hff) as (s' & HN' & _).
      rewrite HN in HN'. injection HN' as -> _. discriminate Hb.
    - destruct (New_success env c Hff) as (addr & s' & _ & HN' & _).
      rewrite HN in HN'. injection HN' as -> _.
      injection Hb as <-. reflexivity. }
  unfold IsTestDockerdMoby, Name. rewrite Hd. cbn [andb].
  split; [apply String.eqb_eq|]. split; [|reflexivity].
  intros bkcfg Hc. cbn in Hc. apply String.eqb_eq in Hc. rewrite Hc.
  reflexivity.
Qed.

Lemma IsTestDockerdMoby_New_witness :
  New envAllOk dockerdContainerd = Some (resultsAllOk, stateAllOk) /\
  IsTestDockerdMoby
    (inl (backend.mk "unix:///tmp/buildkit-integration2" false true
            ["FeatureSecurityMode"; "FeatureCNINetwork"]%string))
    (Name dockerdContainerd) = false.
Proof.
  split; [exact New_envAllOk|].
  destruct (IsTestDockerdMoby_New envAllOk dockerdContainerd resultsAllOk
              stateAllOk _ New_envAllOk eq_refl) as (_ & H & _).
  exact (H (mkBkConfig None []) eq_refl).
Defined.
